(** * Directory Reporter (deno-lib-test/example.ts)

    The script

<<
    for await (const entry of walk(Deno.env.get("HOME") + "/Desktop")) {
      if (entry.isFile) {
        console.log(`File: ${entry.path}`);
      } else if (entry.isDirectory) {
        console.log(`Directory: ${entry.path}`);
      }
    }
>>

    talks to three collaborators: the process environment, the
    filesystem walker of std/fs and the console.  It is embedded as an
    interaction tree with one event per collaborator call; a handler
    gives the events their meaning in a [World] that holds the
    environment, the walker's behaviour, the iterators made so far, the
    bytes written to standard output and the log of calls. *)

From Stdlib Require Import String Ascii List Bool Arith Lia.
From ITree Require Import ITree ITreeFacts Events.State Events.StateFacts.
From ITree Require Import Props.Leaf.
Import ITreeNotations ListNotations.
Local Open Scope list_scope.
Local Open Scope itree_scope.

(* ===================================================================== *)
(** * JavaScript values and operators used by the script *)

Module Js.

(** The values that reach the [+] of line 3: [Deno.env.get] returns
    [string | undefined]. *)
Inductive Value : Type :=
| Undefined
| Str (s : string).

(** The abstract operation ToString on these values. *)
Definition ToString (v : Value) : string :=
  match v with
  | Undefined => "undefined"
  | Str s => s
  end.

(** [l + r] when the right operand is a string: no operand is an
    object, one of them is a String, so the result is the
    concatenation of ToString of both. *)
Definition add (l : Value) (r : string) : string :=
  (ToString l ++ r)%string.

(** What a thrown value carries as far as the script can tell. *)
Record Error : Type := mkError {
  err_name : string;
  err_message : string
}.

(** How a statement list ends. *)
Inductive Completion : Type :=
| Normal
| Throw (err : Error).

(** What a call gives back: the value it returns or the error it
    throws. *)
Inductive Outcome (A : Type) : Type :=
| Returned (a : A)
| Thrown (err : Error).

Arguments Returned {A} a.
Arguments Thrown {A} err.

End Js.

(* ===================================================================== *)
(** * Walk entries and the iteration protocol *)

(** [WalkEntry] of std/fs: a [Deno.DirEntry] with a [path]. *)
Record WalkEntry : Type := mkEntry {
  path : string;
  name : string;
  isFile : bool;
  isDirectory : bool;
  isSymlink : bool
}.

(** Modelled from the spec: the options object [walk] takes as its
    second argument is declared by std/fs, not by the script; section 6
    names a depth limit, a symlink-following toggle and include and
    exclude filters.  An absent member is [None]. *)
Record WalkOptions : Type := mkOptions {
  maxDepth : option nat;
  followSymlinks : option bool;
  includeFilter : option (list string);
  excludeFilter : option (list string)
}.

(** The settled result of one awaited [next()] of the async iterator. *)
Inductive IterResult : Type :=
| IterYield (entry : WalkEntry)
| IterDone
| IterThrow (err : Js.Error).

Definition IterHandle := nat.

(* ===================================================================== *)
(** * The script as an interaction tree *)

(** [Walk root options] is the call [walk(root, options)]; a call with
    one argument has [options = None].  [Deno.env.get] returns a value
    or throws: access to the variable may not be granted. *)
Variant reporterE : Type -> Type :=
| EnvGet (key : string) : reporterE (Js.Outcome Js.Value)
| Walk (root : string) (options : option WalkOptions) : reporterE IterHandle
| Next (it : IterHandle) : reporterE IterResult
| ConsoleLog (msg : string) : reporterE unit.

(** Lines 4-8: the body of the loop. *)
Definition report (entry : WalkEntry) : itree reporterE unit :=
  if isFile entry then
    ITree.trigger (ConsoleLog ("File: " ++ path entry)%string)
  else if isDirectory entry then
    ITree.trigger (ConsoleLog ("Directory: " ++ path entry)%string)
  else
    Ret tt.

(** [for await (const entry of it) body]: await [next()], run the body
    on a yielded entry and ask again, leave normally when the iterator is
    done.  There is no [try] around the loop, so a rejected [next()] is
    the completion of the loop. *)
Definition for_await (it : IterHandle)
    (body : WalkEntry -> itree reporterE unit) : itree reporterE Js.Completion :=
  ITree.iter (fun _ : unit =>
    r <- ITree.trigger (Next it) ;;
    match r with
    | IterYield entry => body entry ;; Ret (inl tt)
    | IterDone => Ret (inr Js.Normal)
    | IterThrow err => Ret (inr (Js.Throw err))
    end) tt.

(** Lines 3-9: the whole module.  The arguments of [walk] are evaluated
    before the call: when [Deno.env.get] throws, nothing catches it and
    the module ends there. *)
Definition main : itree reporterE Js.Completion :=
  home <- ITree.trigger (EnvGet "HOME") ;;
  match home with
  | Js.Thrown err => Ret (Js.Throw err)
  | Js.Returned home =>
      it <- ITree.trigger (Walk (Js.add home "/Desktop") None) ;;
      for_await it report
  end.

(* ===================================================================== *)
(** * The world the script runs in *)

(** One collaborator call, with what it answered. *)
Inductive Event : Type :=
| EvEnvGet (key : string) (result : Js.Value)
| EvEnvGetThrow (key : string) (err : Js.Error)
| EvWalk (root : string) (options : option WalkOptions) (it : IterHandle)
| EvNext (it : IterHandle) (result : IterResult)
| EvLog (msg : string).

(** An iterator is the call that made it and the number of [next()]
    calls it has served. *)
Record Iter : Type := mkIter {
  iter_root : string;
  iter_options : option WalkOptions;
  served : nat
}.

(** The walker is not part of the script: [walker root options k] is
    what the iterator made by [walk(root, options)] answers to its
    [k]-th [next()], counting from 0.  [env] is the process environment;
    [env_error key] is the error [Deno.env.get(key)] throws when access
    to [key] is not granted, [None] when it is. *)
Record World : Type := mkWorld {
  env : string -> option string;
  env_error : string -> option Js.Error;
  walker : string -> option WalkOptions -> nat -> IterResult;
  iters : list Iter;
  stdout : string;
  trace : list Event
}.

Definition env_get (w : World) (key : string) : Js.Value :=
  match env w key with
  | Some v => Js.Str v
  | None => Js.Undefined
  end.

Fixpoint set_nth {A} (n : nat) (x : A) (l : list A) : list A :=
  match l, n with
  | [], _ => []
  | _ :: l', 0 => x :: l'
  | y :: l', S n' => y :: set_nth n' x l'
  end.

Definition record (ev : Event) (w : World) : World :=
  mkWorld (env w) (env_error w) (walker w) (iters w) (stdout w) (trace w ++ [ev]).

Definition write (s : string) (w : World) : World :=
  mkWorld (env w) (env_error w) (walker w) (iters w) (stdout w ++ s)%string (trace w).

Definition with_iters (its : list Iter) (w : World) : World :=
  mkWorld (env w) (env_error w) (walker w) its (stdout w) (trace w).

Definition LF : ascii := ascii_of_nat 10.

Definition newline : string := String LF EmptyString.

(** [next()] on a handle that was never made cannot be written in the
    script; the handler answers it with a rejection. *)
Definition bad_handle : Js.Error := Js.mkError "TypeError" "not an iterator".

Definition handle_reporter : reporterE ~> Monads.stateT World (itree void1) :=
  fun _ e w =>
    match e with
    | EnvGet key =>
        match env_error w key with
        | Some err => Ret (record (EvEnvGetThrow key err) w, Js.Thrown err)
        | None =>
            let v := env_get w key in
            Ret (record (EvEnvGet key v) w, Js.Returned v)
        end
    | Walk root options =>
        let it := length (iters w) in
        Ret (record (EvWalk root options it)
                    (with_iters (iters w ++ [mkIter root options 0]) w), it)
    | Next it =>
        match nth_error (iters w) it with
        | Some (mkIter root options k) =>
            let r := walker w root options k in
            Ret (record (EvNext it r)
                        (with_iters (set_nth it (mkIter root options (S k))
                                             (iters w)) w), r)
        | None =>
            let r := IterThrow bad_handle in
            Ret (record (EvNext it r) w, r)
        end
    | ConsoleLog msg =>
        Ret (record (EvLog msg) (write (msg ++ newline) w), tt)
    end.

(** A run of the script from a world. *)
Definition run (w : World) : itree void1 (World * Js.Completion) :=
  interp_state handle_reporter main w.

(** Running a tree that has no event left: its result, when [n] steps
    reach it. *)
Fixpoint burn {R} (n : nat) (t : itree void1 R) : option R :=
  match n with
  | 0 => None
  | S n' =>
      match observe t with
      | RetF r => Some r
      | TauF t' => burn n' t'
      | VisF e _ => match e with end
      end
  end.

(** What can be seen of a finished run: standard output, the calls made
    and the completion. *)
Definition observed (r : option (World * Js.Completion))
    : option (string * list Event * Js.Completion) :=
  match r with
  | Some (w, c) => Some (stdout w, trace w, c)
  | None => None
  end.

(* ===================================================================== *)
(** * What a run leaves behind *)

(** The messages the loop body logs for one entry. *)
Definition entry_lines (e : WalkEntry) : list string :=
  if isFile e then ["File: " ++ path e]%string
  else if isDirectory e then ["Directory: " ++ path e]%string
  else [].

Definition logged (es : list WalkEntry) : list string :=
  flat_map entry_lines es.

(** The bytes of a list of messages, each ended by a newline. *)
Fixpoint printed (lines : list string) : string :=
  match lines with
  | [] => EmptyString
  | l :: ls => (l ++ newline ++ printed ls)%string
  end.

(** The answers of an iterator from its [k]-th [next()] on, up to the
    one that ends the iteration: the entries yielded and how it ended.
    [None] when [fuel] calls do not reach the end. *)
Fixpoint drain (f : nat -> IterResult) (fuel k : nat)
    : option (list WalkEntry * Js.Completion) :=
  match fuel with
  | 0 => None
  | S fuel' =>
      match f k with
      | IterYield e =>
          match drain f fuel' (S k) with
          | Some (es, c) => Some (e :: es, c)
          | None => None
          end
      | IterDone => Some ([], Js.Normal)
      | IterThrow err => Some ([], Js.Throw err)
      end
  end.

(** The [next()] answer that ends a loop with completion [c]. *)
Definition last_result (c : Js.Completion) : IterResult :=
  match c with
  | Js.Normal => IterDone
  | Js.Throw err => IterThrow err
  end.

(** The calls of the loop over iterator [it]: each yielded entry is
    followed by the messages logged for it, then comes the next request. *)
Definition loop_events (it : IterHandle) (es : list WalkEntry)
    (c : Js.Completion) : list Event :=
  flat_map (fun e => EvNext it (IterYield e) :: List.map EvLog (entry_lines e)) es
    ++ [EvNext it (last_result c)].

(** The root handed to the walker in world [w]. *)
Definition root_path (w : World) : string :=
  Js.add (env_get w "HOME") "/Desktop".

Definition main_events (w : World) (es : list WalkEntry)
    (c : Js.Completion) : list Event :=
  EvEnvGet "HOME" (env_get w "HOME")
    :: EvWalk (root_path w) None (length (iters w))
    :: loop_events (length (iters w)) es c.

(** The walk the script asks for in world [w]: what the iterator of
    [walk(root_path w)] yields and how it ends.  When [HOME] cannot be
    read the script asks for no walk. *)
Definition walk_of (w : World) (fuel : nat)
    : option (list WalkEntry * Js.Completion) :=
  match env_error w "HOME" with
  | Some _ => None
  | None => drain (walker w (root_path w) None) fuel 0
  end.

(** The world after a run that saw entries [es] and ended with [c]. *)
Definition final_world (w : World) (es : list WalkEntry)
    (c : Js.Completion) : World :=
  mkWorld (env w) (env_error w) (walker w)
          (iters w ++ [mkIter (root_path w) None (S (length es))])
          (stdout w ++ printed (logged es))
          (trace w ++ main_events w es c).

(** The world once [HOME] has been read and the walker called on [root]
    alone: one more iterator that has served nothing yet, two more calls
    in the log. *)
Definition walked (root : string) (w : World) : World :=
  mkWorld (env w) (env_error w) (walker w)
          (iters w ++ [mkIter root None 0])
          (stdout w)
          (trace w ++ [EvEnvGet "HOME" (env_get w "HOME");
                       EvWalk root None (length (iters w))]).

(** The world once [Deno.env.get("HOME")] has thrown [err]. *)
Definition refused (err : Js.Error) (w : World) : World :=
  mkWorld (env w) (env_error w) (walker w) (iters w) (stdout w)
          (trace w ++ [EvEnvGetThrow "HOME" err]).

(** The world once [console.log(line)] has returned. *)
Definition emitted (line : string) (w : World) : World :=
  mkWorld (env w) (env_error w) (walker w) (iters w)
          (stdout w ++ line ++ newline)
          (trace w ++ [EvLog line]).

(** An entry the script has a label for, and its line. *)
Definition recognized (e : WalkEntry) : bool := isFile e || isDirectory e.

Definition line_of (e : WalkEntry) : string :=
  if isFile e then ("File: " ++ path e)%string
  else ("Directory: " ++ path e)%string.

(** The [walk] calls of a log, the answers of its [next()] calls, and
    the messages it logged. *)
Definition walk_calls (tr : list Event) : list (string * option WalkOptions) :=
  flat_map (fun ev => match ev with
                      | EvWalk root options _ => [(root, options)]
                      | _ => []
                      end) tr.

Definition next_results (tr : list Event) : list IterResult :=
  flat_map (fun ev => match ev with EvNext _ r => [r] | _ => [] end) tr.

Definition log_calls (tr : list Event) : list string :=
  flat_map (fun ev => match ev with EvLog msg => [msg] | _ => [] end) tr.

(** How many times a character occurs in a string. *)
Fixpoint occurrences (c : ascii) (s : string) : nat :=
  match s with
  | EmptyString => 0
  | String a s' => (if Ascii.eqb a c then 1 else 0) + occurrences c s'
  end.

(** The lines of a text: the runs of characters that a line feed ends,
    without the line feed.  [acc] is the line being read; characters
    after the last line feed are no line. *)
Fixpoint lines_from (acc s : string) : list string :=
  match s with
  | EmptyString => []
  | String ch s' =>
      if Ascii.eqb ch LF then acc :: lines_from EmptyString s'
      else lines_from (acc ++ String ch EmptyString) s'
  end.

Definition text_lines (s : string) : list string := lines_from EmptyString s.

(* ===================================================================== *)
(** * Sample worlds *)

Module Sample.

Local Open Scope string_scope.

Definition desktop : WalkEntry :=
  mkEntry "/home/u/Desktop" "Desktop" false true false.
Definition a_txt : WalkEntry :=
  mkEntry "/home/u/Desktop/a.txt" "a.txt" true false false.
Definition b_dir : WalkEntry :=
  mkEntry "/home/u/Desktop/b" "b" false true false.
Definition c_txt : WalkEntry :=
  mkEntry "/home/u/Desktop/b/c.txt" "c.txt" true false false.
Definition link : WalkEntry :=
  mkEntry "/home/u/Desktop/link" "link" false false true.
(** Both flags set: no filesystem reports it, the type allows it. *)
Definition both : WalkEntry :=
  mkEntry "/home/u/Desktop/odd" "odd" true true false.

Definition srv : WalkEntry :=
  mkEntry "/srv/Desktop" "Desktop" false true false.
Definition srv_log : WalkEntry :=
  mkEntry "/srv/Desktop/x.log" "x.log" true false false.

Definition flat : WalkEntry :=
  mkEntry "/flat/Desktop" "Desktop" false true false.
Definition flat_1 : WalkEntry :=
  mkEntry "/flat/Desktop/1" "1" true false false.
Definition flat_2 : WalkEntry :=
  mkEntry "/flat/Desktop/2" "2" true false false.

Definition not_found : Js.Error :=
  Js.mkError "NotFound" "No such file or directory (os error 2)".
Definition denied : Js.Error :=
  Js.mkError "PermissionDenied" "Permission denied (os error 13)".

Definition script (ys : list WalkEntry) (fin : IterResult) (k : nat)
    : IterResult :=
  nth k (List.map IterYield ys) fin.

(** A walker over a small tree, the same for all options:
    [/home/u/Desktop] is walked to the end, [/srv/Desktop] has an
    unreadable subdirectory, [/flat/Desktop] holds two files, nothing
    else exists. *)
Definition walker (root : string) (options : option WalkOptions)
    : nat -> IterResult :=
  if root =? "/home/u/Desktop" then
    script [desktop; a_txt; b_dir; c_txt; link] IterDone
  else if root =? "/srv/Desktop" then
    script [srv; srv_log] (IterThrow denied)
  else if root =? "/flat/Desktop" then
    script [flat; flat_1; flat_2] IterDone
  else
    script [] (IterThrow not_found).

Definition world (home : option string) : World :=
  mkWorld (fun key => if key =? "HOME" then home else None)
          (fun _ => None) walker [] EmptyString [].

Definition home_world : World := world (Some "/home/u").
Definition srv_world : World := world (Some "/srv").
Definition flat_world : World := world (Some "/flat").
Definition unset_world : World := world None.

(** The same tree seen by another process: more variables set, a call
    already logged, an iterator already open. *)
Definition other_world : World :=
  mkWorld (fun key => if key =? "HOME" then Some "/home/u" else
                      if key =? "LANG" then Some "C" else None)
          (fun _ => None) walker [mkIter "/srv/Desktop" None 1] EmptyString
          [EvWalk "/srv/Desktop" None 0; EvNext 0 (IterYield srv)].

End Sample.

(* ===================================================================== *)
(** * Walks that have not ended, and other environments *)

(** The first [n] answers of an iterator from its [k]-th [next()] on,
    when all of them are entries. *)
Fixpoint first_yields (f : nat -> IterResult) (n k : nat)
    : option (list WalkEntry) :=
  match n with
  | 0 => Some []
  | S n' =>
      match f k with
      | IterYield e =>
          match first_yields f n' (S k) with
          | Some es => Some (e :: es)
          | None => None
          end
      | _ => None
      end
  end.

(** The world of a loop over iterator [it], which had served [k]
    requests, once it has reported the entries [es] and asked for no
    more. *)
Definition loop_state (w : World) (it : IterHandle) (root : string)
    (options : option WalkOptions) (k : nat) (es : list WalkEntry) : World :=
  mkWorld (env w) (env_error w) (walker w)
          (set_nth it (mkIter root options (k + length es)) (iters w))
          (stdout w ++ printed (logged es))
          (trace w ++ flat_map (fun e => EvNext it (IterYield e)
                                           :: List.map EvLog (entry_lines e)) es).

(** The world of a run that has reported the entries [es] and not yet
    asked for the next one. *)
Definition progress (w : World) (es : list WalkEntry) : World :=
  mkWorld (env w) (env_error w) (walker w)
          (iters w ++ [mkIter (root_path w) None (length es)])
          (stdout w ++ printed (logged es))
          (trace w ++
           EvEnvGet "HOME" (env_get w "HOME")
           :: EvWalk (root_path w) None (length (iters w))
           :: flat_map (fun e => EvNext (length (iters w)) (IterYield e)
                                   :: List.map EvLog (entry_lines e)) es).

(** The same world under another environment. *)
Definition with_env (e : string -> option string) (w : World) : World :=
  mkWorld e (env_error w) (walker w) (iters w) (stdout w) (trace w).

(** The variables read in a log. *)
Definition env_reads (tr : list Event) : list string :=
  flat_map (fun ev => match ev with EvEnvGet key _ => [key] | _ => [] end) tr.

(** What a line tells of its entry: the label and the path. *)
Definition kind_and_path (e : WalkEntry) : bool * string := (isFile e, path e).

(** What an onlooker sees of a run while it goes on: each request to an
    iterator and each write to standard output, as they happen. *)
Variant visibleE : Type -> Type :=
| Requested (it : IterHandle) : visibleE unit
| Written (bytes : string) : visibleE unit.

Definition visible {T} (e : reporterE T) : itree visibleE unit :=
  match e with
  | Next it => ITree.trigger (Requested it)
  | ConsoleLog msg => ITree.trigger (Written (msg ++ newline))
  | _ => Ret tt
  end.

(** The handler of [handle_reporter], each call shown before it is
    answered. *)
Definition handle_visible : reporterE ~> Monads.stateT World (itree visibleE) :=
  fun T e w =>
    visible e ;;
    translate (fun _ (v : void1 _) => match v with end) (handle_reporter T e w).

Definition run_visible (w : World) : itree visibleE (World * Js.Completion) :=
  interp_state handle_visible main w.

(** A sequence of sightings, and the sightings of a loop over [it] that
    reports the entries [es]. *)
Fixpoint shown (evs : list (visibleE unit)) : itree visibleE unit :=
  match evs with
  | [] => Ret tt
  | ev :: evs' => ITree.trigger ev ;; shown evs'
  end.

Definition sightings (it : IterHandle) (es : list WalkEntry)
    : list (visibleE unit) :=
  flat_map (fun e => Requested it
                       :: List.map (fun l => Written (l ++ newline))
                                   (entry_lines e)) es.


(* ===================================================================== *)
(** * Corner worlds *)

Module Corner.

Local Open Scope string_scope.

(** A walker that never ends: a link cycle followed for ever. *)
Definition endless (root : string) (options : option WalkOptions) (k : nat)
    : IterResult :=
  IterYield (mkEntry (root ++ "/again") "again" false true false).

Definition again : WalkEntry :=
  mkEntry "/loop/Desktop/again" "again" false true false.

Definition endless_world : World :=
  mkWorld (fun key => if key =? "HOME" then Some "/loop" else None)
          (fun _ => None) endless [] EmptyString [].

(** A directory of sockets and links only. *)
Definition sock : WalkEntry :=
  mkEntry "/run/Desktop/sock" "sock" false false false.
Definition lnk : WalkEntry :=
  mkEntry "/run/Desktop/lnk" "lnk" false false true.

Definition specials (root : string) (options : option WalkOptions)
    : nat -> IterResult :=
  Sample.script [sock; lnk] IterDone.

Definition specials_world : World :=
  mkWorld (fun key => if key =? "HOME" then Some "/run" else None)
          (fun _ => None) specials [] "kept" [].

(** The tree of [Sample.walker] told otherwise: other names, a file that
    is also flagged as a directory, no link. *)
Definition a_twin : WalkEntry :=
  mkEntry "/home/u/Desktop/a.txt" "A.TXT" true true false.

Definition twin (root : string) (options : option WalkOptions)
    : nat -> IterResult :=
  Sample.script [Sample.desktop; a_twin; Sample.b_dir; Sample.c_txt] IterDone.

Definition twin_world : World :=
  mkWorld (fun key => if key =? "HOME" then Some "/home/u" else None)
          (fun _ => None) twin [] EmptyString [].

(** Another environment with the same [HOME]. *)
Definition busy_env (key : string) : option string :=
  if key =? "HOME" then Some "/home/u"
  else if key =? "PATH" then Some "/usr/bin"
  else Some "set".

(** One file whose name holds a line feed, and the two files it reads
    as. *)
Definition two_in_one : WalkEntry :=
  mkEntry ("/d/a" ++ newline ++ "File: /d/b") "a" true false false.
Definition d_a : WalkEntry := mkEntry "/d/a" "a" true false false.
Definition d_b : WalkEntry := mkEntry "/d/b" "b" true false false.

(** A directory that holds one regular file, whose name has a line feed
    in it. *)
Definition lf_root : WalkEntry :=
  mkEntry "/d/Desktop" "Desktop" false true false.
Definition lf_file : WalkEntry :=
  mkEntry ("/d/Desktop/a" ++ newline ++ "Directory: etc")
          ("a" ++ newline ++ "Directory: etc") true false false.

Definition lf_walker (root : string) (options : option WalkOptions)
    : nat -> IterResult :=
  Sample.script [lf_root; lf_file] IterDone.

Definition lf_world : World :=
  mkWorld (fun key => if key =? "HOME" then Some "/d" else None)
          (fun _ => None) lf_walker [] EmptyString [].

(** A process started without access to the environment. *)
Definition not_capable : Js.Error :=
  Js.mkError "NotCapable" "Requires env access to HOME".

Definition denied_world : World :=
  mkWorld (fun key => if key =? "HOME" then Some "/home/u" else None)
          (fun _ => Some not_capable) Sample.walker [] EmptyString [].

End Corner.

(* ===================================================================== *)
(** * Strings, lists and logs *)

Lemma append_assoc (a b c : string) : ((a ++ b) ++ c = a ++ (b ++ c))%string.
Proof. induction a as [|x a IH]; cbn; [reflexivity | now rewrite IH]. Qed.

Lemma append_nil_r (a : string) : (a ++ EmptyString = a)%string.
Proof. induction a as [|x a IH]; cbn; [reflexivity | now rewrite IH]. Qed.

Lemma printed_app (l1 l2 : list string) :
  printed (l1 ++ l2) = (printed l1 ++ printed l2)%string.
Proof.
  induction l1 as [|l l1 IH]; cbn [printed app]; [reflexivity|].
  now rewrite IH, !append_assoc.
Qed.

Lemma printed_one (line : string) : printed [line] = (line ++ newline)%string.
Proof. cbn [printed]. now rewrite append_nil_r. Qed.

Lemma set_nth_last {A} (l : list A) (x y : A) :
  set_nth (length l) y (l ++ [x]) = l ++ [y].
Proof. induction l as [|z l IH]; cbn; [reflexivity | now rewrite IH]. Qed.

Lemma set_nth_twice {A} (n : nat) (x y : A) (l : list A) :
  set_nth n y (set_nth n x l) = set_nth n y l.
Proof.
  revert n; induction l as [|z l IH]; intros [|n]; cbn; try reflexivity.
  now rewrite IH.
Qed.

Lemma nth_error_set_nth {A} (n : nat) (x y : A) (l : list A) :
  nth_error l n = Some x -> nth_error (set_nth n y l) n = Some y.
Proof.
  revert n; induction l as [|z l IH]; intros [|n]; cbn; try discriminate; auto.
Qed.

Lemma nth_error_last {A} (l : list A) (x : A) :
  nth_error (l ++ [x]) (length l) = Some x.
Proof. induction l as [|z l IH]; cbn; auto. Qed.

Lemma world_eta (w : World) :
  mkWorld (env w) (env_error w) (walker w) (iters w) (stdout w) (trace w) = w.
Proof. now destruct w. Qed.

Lemma walk_calls_app (a b : list Event) :
  walk_calls (a ++ b) = walk_calls a ++ walk_calls b.
Proof. apply flat_map_app. Qed.

Lemma next_results_app (a b : list Event) :
  next_results (a ++ b) = next_results a ++ next_results b.
Proof. apply flat_map_app. Qed.

Lemma log_calls_app (a b : list Event) :
  log_calls (a ++ b) = log_calls a ++ log_calls b.
Proof. apply flat_map_app. Qed.

Lemma log_calls_logs (ls : list string) : log_calls (List.map EvLog ls) = ls.
Proof.
  unfold log_calls. induction ls as [|l ls IH]; cbn; [reflexivity | now rewrite IH].
Qed.

Lemma walk_calls_logs (ls : list string) : walk_calls (List.map EvLog ls) = [].
Proof. unfold walk_calls. induction ls as [|l ls IH]; cbn; auto. Qed.

Lemma next_results_logs (ls : list string) : next_results (List.map EvLog ls) = [].
Proof. unfold next_results. induction ls as [|l ls IH]; cbn; auto. Qed.

Lemma walk_calls_loop it es c : walk_calls (loop_events it es c) = [].
Proof.
  unfold loop_events. rewrite walk_calls_app. cbn [walk_calls flat_map app].
  rewrite app_nil_r. induction es as [|e es IH]; [reflexivity|].
  cbn [flat_map]. rewrite walk_calls_app, IH, app_nil_r.
  cbn [walk_calls flat_map app]. apply walk_calls_logs.
Qed.

Lemma next_results_loop it es c :
  next_results (loop_events it es c) = List.map IterYield es ++ [last_result c].
Proof.
  unfold loop_events. rewrite next_results_app. f_equal.
  induction es as [|e es IH]; [reflexivity|].
  cbn [flat_map List.map]. rewrite next_results_app, IH.
  cbn [next_results flat_map app].
  fold (next_results (List.map EvLog (entry_lines e))).
  now rewrite next_results_logs.
Qed.

Lemma log_calls_loop it es c : log_calls (loop_events it es c) = logged es.
Proof.
  unfold loop_events, logged. rewrite log_calls_app. cbn [log_calls flat_map app].
  rewrite app_nil_r. induction es as [|e es IH]; [reflexivity|].
  cbn [flat_map]. rewrite log_calls_app, IH. f_equal.
  cbn [log_calls flat_map app]. apply log_calls_logs.
Qed.

Lemma logged_app (es1 es2 : list WalkEntry) :
  logged (es1 ++ es2) = logged es1 ++ logged es2.
Proof. apply flat_map_app. Qed.

Lemma entry_lines_recognized (e : WalkEntry) :
  entry_lines e = if recognized e then [line_of e] else [].
Proof.
  unfold entry_lines, recognized, line_of.
  now destruct (isFile e), (isDirectory e).
Qed.

Lemma logged_recognized (es : list WalkEntry) :
  logged es = List.map line_of (filter recognized es).
Proof.
  unfold logged. induction es as [|e es IH]; [reflexivity|].
  cbn [flat_map filter]. rewrite IH, entry_lines_recognized.
  now destruct (recognized e).
Qed.

Lemma logged_files (fs : list WalkEntry) :
  Forall (fun e => isFile e = true) fs ->
  logged fs = List.map (fun f => ("File: " ++ path f)%string) fs.
Proof.
  unfold logged. induction 1 as [|f fs Hf _ IH]; [reflexivity|].
  cbn [flat_map List.map]. rewrite IH. unfold entry_lines. now rewrite Hf.
Qed.

Lemma logged_directories (ds : list WalkEntry) :
  Forall (fun r => isFile r = false /\ isDirectory r = true) ds ->
  logged ds = List.map (fun r => ("Directory: " ++ path r)%string) ds.
Proof.
  unfold logged. induction 1 as [|r rs [Hf Hd] _ IH]; [reflexivity|].
  cbn [flat_map List.map]. rewrite IH. unfold entry_lines. now rewrite Hf, Hd.
Qed.

Lemma occurrences_app (c : ascii) (a b : string) :
  occurrences c (a ++ b) = occurrences c a + occurrences c b.
Proof.
  induction a as [|x a IH]; cbn [occurrences append]; [reflexivity|].
  rewrite IH. lia.
Qed.

Lemma line_of_newlines (e : WalkEntry) :
  occurrences LF (line_of e) = occurrences LF (path e).
Proof.
  unfold line_of. destruct (isFile e); now rewrite occurrences_app.
Qed.

(** A message without a line feed is one line of the output. *)
Lemma printed_newlines (ls : list string) :
  Forall (fun l => occurrences LF l = 0) ls ->
  occurrences LF (printed ls) = length ls.
Proof.
  induction 1 as [|l ls Hl _ IH]; [reflexivity|].
  cbn [printed length]. rewrite !occurrences_app, Hl, IH. reflexivity.
Qed.

(** When no path holds a line feed, the output of a walk has as many
    lines as the walk has file and directory entries. *)
Lemma printed_lines_count (es : list WalkEntry) :
  Forall (fun e => occurrences LF (path e) = 0) es ->
  occurrences LF (printed (List.map line_of (filter recognized es))) =
  length (filter recognized es).
Proof.
  intros Hes. rewrite printed_newlines; [apply length_map|].
  apply Forall_map. induction Hes as [|e es He _ IH]; cbn [filter]; [constructor|].
  destruct (recognized e); [constructor|]; auto.
  now rewrite line_of_newlines.
Qed.

Lemma lines_LF_free (es : list WalkEntry) :
  Forall (fun e => occurrences LF (path e) = 0) es ->
  Forall (fun l => occurrences LF l = 0)
         (List.map line_of (filter recognized es)).
Proof.
  intros Hes. apply Forall_map.
  induction Hes as [|e es He _ IH]; cbn [filter]; [constructor|].
  destruct (recognized e); [constructor|]; auto.
  now rewrite line_of_newlines.
Qed.

Lemma lines_from_line (acc l rest : string) :
  occurrences LF l = 0 ->
  lines_from acc (l ++ newline ++ rest) = (acc ++ l)%string :: lines_from EmptyString rest.
Proof.
  revert acc; induction l as [|ch l IH]; intros acc Hl.
  - cbn. now rewrite append_nil_r.
  - cbn [occurrences] in Hl. cbn [append lines_from].
    destruct (Ascii.eqb ch LF); [discriminate|].
    rewrite IH by exact Hl. now rewrite append_assoc.
Qed.

(** Messages without a line feed print as that many lines, the
    messages themselves. *)
Lemma text_lines_printed (ls : list string) :
  Forall (fun l => occurrences LF l = 0) ls ->
  text_lines (printed ls) = ls.
Proof.
  unfold text_lines. induction 1 as [|l ls Hl _ IH]; [reflexivity|].
  cbn [printed]. now rewrite lines_from_line, IH.
Qed.

(* ===================================================================== *)
(** * Running the script *)

(** Two results of one tree are the same result. *)
Lemma ret_unique {R} (t : itree void1 R) (a b : R) :
  t ≈ Ret a -> t ≈ Ret b -> a = b.
Proof.
  intros Ha Hb. rewrite Ha in Hb. now apply eutt_inv_Ret in Hb.
Qed.

(** A result computed by [burn] is the result of the tree. *)
Lemma burn_sound {R} (n : nat) (t : itree void1 R) (r : R) :
  burn n t = Some r -> t ≈ Ret r.
Proof.
  revert t; induction n as [|n IH]; intros t H; [discriminate|].
  cbn [burn] in H. rewrite (itree_eta t).
  destruct (observe t) as [r'|t'|X e k].
  - injection H as ->. reflexivity.
  - rewrite tau_eutt. now apply IH.
  - destruct e.
Qed.

(** Run the call at the head of a sequence and hand its answer on. *)
Ltac run_call :=
  rewrite interp_state_bind, interp_state_trigger;
  unfold handle_reporter at 1; cbv zeta.

Ltac hand_on := rewrite bind_ret_l; cbn [fst snd].

Lemma console_log_run (msg : string) (w : World) :
  interp_state handle_reporter (ITree.trigger (ConsoleLog msg)) w ≈
  Ret (emitted msg w, tt).
Proof.
  rewrite interp_state_trigger. reflexivity.
Qed.

(** The loop body on one entry. *)
Lemma report_run (e : WalkEntry) (w : World) :
  interp_state handle_reporter (report e) w ≈
  Ret (mkWorld (env w) (env_error w) (walker w) (iters w)
               (stdout w ++ printed (entry_lines e))
               (trace w ++ List.map EvLog (entry_lines e)), tt).
Proof.
  unfold report, entry_lines.
  destruct (isFile e); [|destruct (isDirectory e)].
  - rewrite console_log_run, printed_one. reflexivity.
  - rewrite console_log_run, printed_one. reflexivity.
  - rewrite interp_state_ret. cbn [printed List.map].
    now rewrite append_nil_r, app_nil_r, world_eta.
Qed.

(** The loop over an iterator that has served [k] requests and ends
    within [fuel] more. *)
Lemma for_await_run (fuel : nat) :
  forall (w : World) (it : IterHandle) root options k es c,
    nth_error (iters w) it = Some (mkIter root options k) ->
    drain (walker w root options) fuel k = Some (es, c) ->
    interp_state handle_reporter (for_await it report) w ≈
    Ret (mkWorld (env w) (env_error w) (walker w)
                 (set_nth it (mkIter root options (S (k + length es))) (iters w))
                 (stdout w ++ printed (logged es))
                 (trace w ++ loop_events it es c), c).
Proof.
  induction fuel as [|fuel IH]; intros w it root options k es c Hit Hd;
    [discriminate|].
  cbn [drain] in Hd.
  unfold for_await. rewrite unfold_iter, bind_bind.
  run_call. rewrite Hit. hand_on.
  destruct (walker w root options k) as [e| |err] eqn:Hw.
  - destruct (drain (walker w root options) fuel (S k)) as [[es' c']|] eqn:Hd';
      [|discriminate].
    injection Hd as <- <-.
    rewrite bind_bind, interp_state_bind, report_run. hand_on.
    rewrite bind_ret_l, interp_state_tau, tau_eutt.
    fold (for_await it report).
    rewrite (IH _ it root options (S k) es' c');
      cbn [env walker iters stdout trace record with_iters].
    + apply eqit_Ret. f_equal.
      unfold loop_events, logged. cbn [flat_map length].
      rewrite set_nth_twice, printed_app, append_assoc, Nat.add_succ_r.
      f_equal. now rewrite <- !app_assoc.
    + now apply nth_error_set_nth with (x := mkIter root options k).
    + exact Hd'.
  - injection Hd as <- <-.
    rewrite bind_ret_l, interp_state_ret.
    apply eqit_Ret. unfold record, with_iters, loop_events, logged.
    cbn [env walker iters stdout trace flat_map length printed app last_result].
    now rewrite append_nil_r, Nat.add_0_r.
  - injection Hd as <- <-.
    rewrite bind_ret_l, interp_state_ret.
    apply eqit_Ret. unfold record, with_iters, loop_events, logged.
    cbn [env walker iters stdout trace flat_map length printed app last_result].
    now rewrite append_nil_r, Nat.add_0_r.
Qed.

(** The first two calls of the script when [HOME] can be read, whatever
    the walker does next. *)
Lemma main_prefix (w : World) :
  env_error w "HOME"%string = None ->
  run w ≈
  interp_state handle_reporter (for_await (length (iters w)) report)
               (walked (root_path w) w).
Proof.
  intros Hok. unfold run, main.
  run_call. rewrite Hok. hand_on. run_call. hand_on.
  unfold record, with_iters, walked, root_path.
  cbn [env walker iters stdout trace].
  now rewrite <- app_assoc.
Qed.

(** A whole run over a walk that ends. *)
Lemma main_run (fuel : nat) (w : World) es c :
  walk_of w fuel = Some (es, c) ->
  run w ≈ Ret (final_world w es c, c).
Proof.
  unfold walk_of. destruct (env_error w "HOME") eqn:Hok; [discriminate|].
  intros Hd. rewrite main_prefix by exact Hok.
  rewrite (for_await_run fuel _ _ (root_path w) None 0 es c).
  - apply eqit_Ret. unfold final_world, walked, main_events.
    cbn [env env_error walker iters stdout trace Nat.add].
    now rewrite set_nth_last, <- app_assoc.
  - apply nth_error_last.
  - exact Hd.
Qed.

(** The whole run when [HOME] cannot be read. *)
Lemma refused_run (w : World) (err : Js.Error) :
  env_error w "HOME"%string = Some err ->
  run w ≈ Ret (refused err w, Js.Throw err).
Proof.
  intros Hno. unfold run, main.
  run_call. rewrite Hno. hand_on. now rewrite interp_state_ret.
Qed.

(** The runs of the sample worlds, computed. *)
Example home_run_computed :
  observed (burn 40 (run Sample.home_world)) =
  Some (printed ["Directory: /home/u/Desktop"; "File: /home/u/Desktop/a.txt";
                 "Directory: /home/u/Desktop/b";
                 "File: /home/u/Desktop/b/c.txt"]%string,
        [EvEnvGet "HOME" (Js.Str "/home/u"); EvWalk "/home/u/Desktop" None 0;
         EvNext 0 (IterYield Sample.desktop); EvLog "Directory: /home/u/Desktop";
         EvNext 0 (IterYield Sample.a_txt); EvLog "File: /home/u/Desktop/a.txt";
         EvNext 0 (IterYield Sample.b_dir); EvLog "Directory: /home/u/Desktop/b";
         EvNext 0 (IterYield Sample.c_txt); EvLog "File: /home/u/Desktop/b/c.txt";
         EvNext 0 (IterYield Sample.link);
         EvNext 0 IterDone],
        Js.Normal).
Proof. vm_compute. reflexivity. Qed.

Example srv_run_computed :
  observed (burn 40 (run Sample.srv_world)) =
  Some (printed ["Directory: /srv/Desktop"; "File: /srv/Desktop/x.log"]%string,
        [EvEnvGet "HOME" (Js.Str "/srv"); EvWalk "/srv/Desktop" None 0;
         EvNext 0 (IterYield Sample.srv); EvLog "Directory: /srv/Desktop";
         EvNext 0 (IterYield Sample.srv_log); EvLog "File: /srv/Desktop/x.log";
         EvNext 0 (IterThrow Sample.denied)],
        Js.Throw Sample.denied).
Proof. vm_compute. reflexivity. Qed.

Example unset_run_computed :
  observed (burn 40 (run Sample.unset_world)) =
  Some (EmptyString,
        [EvEnvGet "HOME" Js.Undefined; EvWalk "undefined/Desktop" None 0;
         EvNext 0 (IterThrow Sample.not_found)],
        Js.Throw Sample.not_found).
Proof. vm_compute. reflexivity. Qed.

Example denied_run_computed :
  observed (burn 40 (run Corner.denied_world)) =
  Some (EmptyString,
        [EvEnvGetThrow "HOME" Corner.not_capable],
        Js.Throw Corner.not_capable).
Proof. vm_compute. reflexivity. Qed.

(* ===================================================================== *)
(** * The loop body *)

(** C1: for an entry the walker yields, the body logs exactly the line
    [File: <path>] when the entry is a file, otherwise exactly the line
    [Directory: <path>] when it is a directory, and for an entry that is
    neither it returns normally having changed nothing. *)
Theorem report_classifies (e : WalkEntry) (w : World) :
  (isFile e = true ->
   interp_state handle_reporter (report e) w ≈
   Ret (emitted ("File: " ++ path e) w, tt)) /\
  (isFile e = false -> isDirectory e = true ->
   interp_state handle_reporter (report e) w ≈
   Ret (emitted ("Directory: " ++ path e) w, tt)) /\
  (isFile e = false -> isDirectory e = false ->
   interp_state handle_reporter (report e) w ≈ Ret (w, tt)).
Proof.
  unfold report. split; [|split].
  - intros ->. apply console_log_run.
  - intros -> ->. apply console_log_run.
  - intros -> ->. now rewrite interp_state_ret.
Qed.

Lemma report_classifies_witness :
  interp_state handle_reporter (report Sample.a_txt) Sample.home_world ≈
    Ret (emitted "File: /home/u/Desktop/a.txt" Sample.home_world, tt) /\
  interp_state handle_reporter (report Sample.b_dir) Sample.home_world ≈
    Ret (emitted "Directory: /home/u/Desktop/b" Sample.home_world, tt) /\
  interp_state handle_reporter (report Sample.link) Sample.home_world ≈
    Ret (Sample.home_world, tt).
Proof.
  split; [|split].
  - exact (proj1 (report_classifies Sample.a_txt Sample.home_world) eq_refl).
  - exact (proj1 (proj2 (report_classifies Sample.b_dir Sample.home_world))
                 eq_refl eq_refl).
  - exact (proj2 (proj2 (report_classifies Sample.link Sample.home_world))
                 eq_refl eq_refl).
Defined.

(** C10: on an entry with both flags set the body logs one line, the
    [File: <path>] line, and not the [Directory: <path>] line: the
    directory test is made only when the file test fails. *)
Theorem file_takes_precedence (e : WalkEntry) (w : World) :
  isFile e = true -> isDirectory e = true ->
  interp_state handle_reporter (report e) w ≈
    Ret (emitted ("File: " ++ path e) w, tt) /\
  ~ interp_state handle_reporter (report e) w ≈
      Ret (emitted ("Directory: " ++ path e) w, tt).
Proof.
  intros Hf Hd.
  assert (Hrun : interp_state handle_reporter (report e) w ≈
                 Ret (emitted ("File: " ++ path e) w, tt))
    by (unfold report; rewrite Hf; apply console_log_run).
  split; [exact Hrun|].
  intros Hdir.
  pose proof (ret_unique _ _ _ Hrun Hdir) as Heq.
  apply (f_equal (fun p => trace (fst p))) in Heq.
  cbn [fst emitted trace] in Heq.
  apply app_inv_head in Heq. discriminate Heq.
Qed.

Lemma file_takes_precedence_witness :
  interp_state handle_reporter (report Sample.both) Sample.home_world ≈
    Ret (emitted "File: /home/u/Desktop/odd" Sample.home_world, tt) /\
  ~ interp_state handle_reporter (report Sample.both) Sample.home_world ≈
      Ret (emitted "Directory: /home/u/Desktop/odd" Sample.home_world, tt).
Proof.
  exact (file_takes_precedence Sample.both Sample.home_world eq_refl eq_refl).
Defined.

(* ===================================================================== *)
(** * The root path *)

(** C3: when [HOME] is set to [v] (and [Deno.env.get] may read it), the
    script reads [HOME], calls the walker on [v ++ "/Desktop"] and
    loops over the iterator of that call, whatever [v] is and whatever
    the walker answers. *)
Theorem set_home_root (w : World) (v : string) :
  env_error w "HOME"%string = None ->
  env w "HOME"%string = Some v ->
  run w ≈
  interp_state handle_reporter (for_await (length (iters w)) report)
               (walked (v ++ "/Desktop") w).
Proof.
  intros Hok Hv. rewrite main_prefix by exact Hok.
  unfold root_path, env_get. now rewrite Hv.
Qed.

Lemma set_home_root_witness :
  run Sample.home_world ≈
  interp_state handle_reporter (for_await 0 report)
               (walked "/home/u/Desktop" Sample.home_world).
Proof.
  exact (set_home_root Sample.home_world "/home/u" eq_refl eq_refl).
Defined.

(** C2, as the code has it: when [HOME] is unset (and [Deno.env.get] may
    read it), [Deno.env.get] answers [undefined], which [+] turns into
    the string ["undefined"]; the walker is called on
    ["undefined/Desktop"]. *)
Theorem unset_home_root (w : World) :
  env_error w "HOME"%string = None ->
  env w "HOME"%string = None ->
  run w ≈
  interp_state handle_reporter (for_await (length (iters w)) report)
               (walked "undefined/Desktop" w).
Proof.
  intros Hok Hv. rewrite main_prefix by exact Hok.
  unfold root_path, env_get. now rewrite Hv.
Qed.

Lemma unset_home_root_witness :
  run Sample.unset_world ≈
  interp_state handle_reporter (for_await 0 report)
               (walked "undefined/Desktop" Sample.unset_world).
Proof.
  exact (unset_home_root Sample.unset_world eq_refl eq_refl).
Defined.

(** C2, as the spec has it, fails in a world without [HOME]: the one
    walker call of the run is on ["undefined/Desktop"], and the run is
    not the loop that follows a call on ["/Desktop"]. *)
Lemma unset_home_not_slash_desktop :
  env Sample.unset_world "HOME"%string = None /\
  (exists w',
     run Sample.unset_world ≈ Ret (w', Js.Throw Sample.not_found) /\
     walk_calls (trace w') = [("undefined/Desktop"%string, None)]) /\
  ~ run Sample.unset_world ≈
    interp_state handle_reporter (for_await 0 report)
                 (walked "/Desktop" Sample.unset_world).
Proof.
  assert (Hrun : run Sample.unset_world ≈
                 Ret (final_world Sample.unset_world [] (Js.Throw Sample.not_found),
                      Js.Throw Sample.not_found))
    by (apply (main_run 1); reflexivity).
  split; [reflexivity|split].
  - eexists; split; [exact Hrun | reflexivity].
  - intros Hbad.
    rewrite (for_await_run 1 _ 0 "/Desktop" None 0 [] (Js.Throw Sample.not_found))
      in Hbad by reflexivity.
    pose proof (ret_unique _ _ _ Hrun Hbad) as Heq.
    apply (f_equal (fun p => walk_calls (trace (fst p)))) in Heq.
    vm_compute in Heq. discriminate Heq.
Qed.

(* ===================================================================== *)
(** * Whole runs *)

(** C4: when the walker fails with [err] after yielding [es], the run
    ends with [err] itself as its completion, nothing having caught it;
    the lines of [es] are on standard output, logged before the failing
    [next()], and that [next()] is the last call of the run. *)
Theorem walker_failure_propagates (fuel : nat) (w : World)
    (es : list WalkEntry) (err : Js.Error) :
  walk_of w fuel = Some (es, Js.Throw err) ->
  exists w',
    run w ≈ Ret (w', Js.Throw err) /\
    stdout w' =
      (stdout w ++ printed (List.map line_of (filter recognized es)))%string /\
    trace w' =
      trace w ++
      [EvEnvGet "HOME" (env_get w "HOME");
       EvWalk (root_path w) None (length (iters w))] ++
      flat_map (fun e => EvNext (length (iters w)) (IterYield e)
                           :: List.map EvLog (entry_lines e)) es ++
      [EvNext (length (iters w)) (IterThrow err)].
Proof.
  intros Hd. exists (final_world w es (Js.Throw err)).
  split; [now apply (main_run fuel)|].
  unfold final_world. cbn [stdout trace].
  split; [now rewrite logged_recognized | reflexivity].
Qed.

Lemma walker_failure_propagates_witness :
  exists w',
    run Sample.srv_world ≈ Ret (w', Js.Throw Sample.denied) /\
    stdout w' = printed ["Directory: /srv/Desktop";
                        "File: /srv/Desktop/x.log"]%string /\
    trace w' =
      [EvEnvGet "HOME" (Js.Str "/srv"); EvWalk "/srv/Desktop" None 0;
       EvNext 0 (IterYield Sample.srv); EvLog "Directory: /srv/Desktop";
       EvNext 0 (IterYield Sample.srv_log); EvLog "File: /srv/Desktop/x.log";
       EvNext 0 (IterThrow Sample.denied)].
Proof.
  apply (walker_failure_propagates 3 Sample.srv_world
           [Sample.srv; Sample.srv_log] Sample.denied).
  reflexivity.
Defined.

(** C5, as the code has it: the bytes a run adds to standard output are
    the messages of the file and directory entries, one per entry and in
    the order the walker yielded them, each followed by a newline;
    nothing else is written, and [console.log] is called once per such
    entry.  When no yielded path holds a line feed, each message is one
    line: the lines of the output are then exactly these messages. *)
Theorem stdout_one_line_per_entry (fuel : nat) (w : World)
    (es : list WalkEntry) (c : Js.Completion) :
  walk_of w fuel = Some (es, c) ->
  exists w',
    run w ≈ Ret (w', c) /\
    stdout w' = (stdout w ++ printed (List.map line_of (filter recognized es)))%string /\
    log_calls (trace w') =
      log_calls (trace w) ++ List.map line_of (filter recognized es) /\
    (Forall (fun e => occurrences LF (path e) = 0) es ->
     text_lines (printed (List.map line_of (filter recognized es))) =
     List.map line_of (filter recognized es)).
Proof.
  intros Hd. exists (final_world w es c).
  split; [now apply (main_run fuel)|].
  unfold final_world, main_events. cbn [stdout trace].
  split; [now rewrite logged_recognized|split].
  - rewrite log_calls_app. f_equal.
    change (log_calls (?a :: ?b :: ?l)) with (log_calls l).
    now rewrite log_calls_loop, logged_recognized.
  - intros Hes. now apply text_lines_printed, lines_LF_free.
Qed.

Lemma stdout_one_line_per_entry_witness :
  exists w',
    run Sample.home_world ≈ Ret (w', Js.Normal) /\
    stdout w' = printed ["Directory: /home/u/Desktop";
                         "File: /home/u/Desktop/a.txt";
                         "Directory: /home/u/Desktop/b";
                         "File: /home/u/Desktop/b/c.txt"]%string /\
    log_calls (trace w') =
      ["Directory: /home/u/Desktop"; "File: /home/u/Desktop/a.txt";
       "Directory: /home/u/Desktop/b"; "File: /home/u/Desktop/b/c.txt"]%string /\
    text_lines (printed ["Directory: /home/u/Desktop";
                         "File: /home/u/Desktop/a.txt";
                         "Directory: /home/u/Desktop/b";
                         "File: /home/u/Desktop/b/c.txt"]%string) =
      ["Directory: /home/u/Desktop"; "File: /home/u/Desktop/a.txt";
       "Directory: /home/u/Desktop/b"; "File: /home/u/Desktop/b/c.txt"]%string.
Proof.
  destruct (stdout_one_line_per_entry 6 Sample.home_world
              [Sample.desktop; Sample.a_txt; Sample.b_dir; Sample.c_txt;
               Sample.link] Js.Normal eq_refl)
    as (w' & Hrun & Hout & Hlog & Hlines).
  exists w'. split; [exact Hrun|split; [exact Hout|split; [exact Hlog|]]].
  apply Hlines. repeat constructor.
Defined.

(** C5, as the spec has it, fails on a file whose name holds a line
    feed: the walk has two entries, a directory and a file, and the
    output has three newline-terminated lines. *)
Lemma line_feed_path_prints_two_lines :
  walk_of Corner.lf_world 3 =
    Some ([Corner.lf_root; Corner.lf_file], Js.Normal) /\
  length (filter recognized [Corner.lf_root; Corner.lf_file]) = 2 /\
  exists w',
    run Corner.lf_world ≈ Ret (w', Js.Normal) /\
    text_lines (stdout w') =
      ["Directory: /d/Desktop"; "File: /d/Desktop/a"; "Directory: etc"]%string.
Proof.
  split; [reflexivity|split; [reflexivity|]].
  exists (final_world Corner.lf_world [Corner.lf_root; Corner.lf_file] Js.Normal).
  split; [apply (main_run 3); reflexivity | reflexivity].
Qed.

(** C6, as the code has it: when [HOME] can be read, a run calls the
    walker once, and the argument list of that call is the root path
    alone; when [Deno.env.get] throws, the run ends with that error and
    the walker is not called. *)
Theorem walker_called_once (w : World) :
  (forall fuel es c,
     walk_of w fuel = Some (es, c) ->
     exists w',
       run w ≈ Ret (w', c) /\
       walk_calls (trace w') = walk_calls (trace w) ++ [(root_path w, None)]) /\
  (forall err,
     env_error w "HOME"%string = Some err ->
     exists w',
       run w ≈ Ret (w', Js.Throw err) /\
       walk_calls (trace w') = walk_calls (trace w)).
Proof.
  split.
  - intros fuel es c Hd. exists (final_world w es c).
    split; [now apply (main_run fuel)|].
    unfold final_world, main_events. cbn [trace].
    rewrite walk_calls_app. f_equal.
    change (walk_calls (?a :: EvWalk ?r ?o ?it :: ?l)) with ((r, o) :: walk_calls l).
    now rewrite walk_calls_loop.
  - intros err Hno. exists (refused err w).
    split; [now apply refused_run|].
    unfold refused. cbn [trace]. rewrite walk_calls_app.
    apply app_nil_r.
Qed.

Lemma walker_called_once_witness :
  (exists w',
     run Sample.other_world ≈ Ret (w', Js.Normal) /\
     walk_calls (trace w') =
       [("/srv/Desktop"%string, None); ("/home/u/Desktop"%string, None)]) /\
  (exists w',
     run Corner.denied_world ≈ Ret (w', Js.Throw Corner.not_capable) /\
     walk_calls (trace w') = []).
Proof.
  split.
  - apply (proj1 (walker_called_once Sample.other_world) 6
             [Sample.desktop; Sample.a_txt; Sample.b_dir; Sample.c_txt;
              Sample.link] Js.Normal).
    reflexivity.
  - apply (proj2 (walker_called_once Corner.denied_world) Corner.not_capable).
    reflexivity.
Defined.

(** C6, as the spec has it, fails in a process that may not read
    [HOME]: the run ends with the error of [Deno.env.get] and has called
    the walker no time. *)
Lemma refused_read_calls_no_walker :
  env_error Corner.denied_world "HOME"%string = Some Corner.not_capable /\
  exists w',
    run Corner.denied_world ≈ Ret (w', Js.Throw Corner.not_capable) /\
    walk_calls (trace w') = [] /\
    trace w' = [EvEnvGetThrow "HOME" Corner.not_capable].
Proof.
  split; [reflexivity|].
  exists (refused Corner.not_capable Corner.denied_world).
  split; [apply refused_run; reflexivity|split; reflexivity].
Qed.

(** C7: two runs whose walkers yield the same entries, started with the
    same pending output, end with the same standard output, whatever
    else differs between their worlds. *)
Theorem same_walk_same_output (fuel1 fuel2 : nat) (w1 w2 : World)
    (es : list WalkEntry) (c1 c2 : Js.Completion) :
  walk_of w1 fuel1 = Some (es, c1) ->
  walk_of w2 fuel2 = Some (es, c2) ->
  stdout w1 = stdout w2 ->
  (exists w1' w2', run w1 ≈ Ret (w1', c1) /\ run w2 ≈ Ret (w2', c2)) /\
  (forall w1' w2' r1 r2,
     run w1 ≈ Ret (w1', r1) -> run w2 ≈ Ret (w2', r2) ->
     stdout w1' = stdout w2').
Proof.
  intros H1 H2 Hout.
  pose proof (main_run fuel1 w1 es c1 H1) as R1.
  pose proof (main_run fuel2 w2 es c2 H2) as R2.
  split; [now eauto|].
  intros w1' w2' r1 r2 Q1 Q2.
  pose proof (ret_unique _ _ _ R1 Q1) as E1.
  pose proof (ret_unique _ _ _ R2 Q2) as E2.
  injection E1 as <- _. injection E2 as <- _.
  unfold final_world. cbn [stdout]. now rewrite Hout.
Qed.

Lemma same_walk_same_output_witness :
  (exists w1' w2',
     run Sample.home_world ≈ Ret (w1', Js.Normal) /\
     run Sample.other_world ≈ Ret (w2', Js.Normal)) /\
  (forall w1' w2' r1 r2,
     run Sample.home_world ≈ Ret (w1', r1) ->
     run Sample.other_world ≈ Ret (w2', r2) ->
     stdout w1' = stdout w2').
Proof.
  apply (same_walk_same_output 6 9 Sample.home_world Sample.other_world
           [Sample.desktop; Sample.a_txt; Sample.b_dir; Sample.c_txt; Sample.link]
           Js.Normal Js.Normal); reflexivity.
Defined.

(** C8: on a run that ends normally the calls are, after the two of the
    prologue, one [next()] per entry in walk order, each followed by the
    lines of its entry before the following [next()], and a last
    [next()] that reports the end; the iterator has then served one
    request per entry and the final one. *)
Theorem walk_consumed_once_in_order (fuel : nat) (w : World)
    (es : list WalkEntry) :
  walk_of w fuel = Some (es, Js.Normal) ->
  exists w',
    run w ≈ Ret (w', Js.Normal) /\
    trace w' =
      trace w ++
      [EvEnvGet "HOME" (env_get w "HOME");
       EvWalk (root_path w) None (length (iters w))] ++
      flat_map (fun e => EvNext (length (iters w)) (IterYield e)
                           :: List.map EvLog (entry_lines e)) es ++
      [EvNext (length (iters w)) IterDone] /\
    next_results (trace w') =
      next_results (trace w) ++ List.map IterYield es ++ [IterDone] /\
    iters w' = iters w ++ [mkIter (root_path w) None (S (length es))].
Proof.
  intros Hd. exists (final_world w es Js.Normal).
  split; [now apply (main_run fuel)|].
  unfold final_world, main_events. cbn [trace iters].
  split; [reflexivity|split; [|reflexivity]].
  rewrite next_results_app. f_equal.
  change (next_results (?a :: EvWalk ?r ?o ?it :: ?l)) with (next_results l).
  now rewrite next_results_loop.
Qed.

Lemma walk_consumed_once_in_order_witness :
  exists w',
    run Sample.flat_world ≈ Ret (w', Js.Normal) /\
    trace w' =
      [EvEnvGet "HOME" (Js.Str "/flat"); EvWalk "/flat/Desktop" None 0;
       EvNext 0 (IterYield Sample.flat); EvLog "Directory: /flat/Desktop";
       EvNext 0 (IterYield Sample.flat_1); EvLog "File: /flat/Desktop/1";
       EvNext 0 (IterYield Sample.flat_2); EvLog "File: /flat/Desktop/2";
       EvNext 0 IterDone] /\
    next_results (trace w') =
      [IterYield Sample.flat; IterYield Sample.flat_1;
       IterYield Sample.flat_2; IterDone] /\
    iters w' = [mkIter "/flat/Desktop" None 4].
Proof.
  apply (walk_consumed_once_in_order 4 Sample.flat_world
           [Sample.flat; Sample.flat_1; Sample.flat_2]).
  reflexivity.
Defined.

(** C9, as the code has it: when the walk yields files only, apart from
    at most one directory entry for the root, the output is one
    [File: <path>] message per file with the path the walker reported
    and one [Directory: <path>] message for that root entry; when no
    yielded path holds a line feed these messages are the lines of the
    output, so that no other [Directory:] line is in it. *)
Theorem only_files_output (fuel : nat) (w : World)
    (before root after : list WalkEntry) (c : Js.Completion) :
  walk_of w fuel = Some (before ++ root ++ after, c) ->
  Forall (fun e => isFile e = true) before ->
  Forall (fun e => isFile e = true) after ->
  Forall (fun r => isFile r = false /\ isDirectory r = true) root ->
  length root <= 1 ->
  exists w',
    run w ≈ Ret (w', c) /\
    stdout w' =
      (stdout w ++
       printed (List.map (fun f => "File: " ++ path f) before ++
                List.map (fun r => "Directory: " ++ path r) root ++
                List.map (fun f => "File: " ++ path f) after))%string /\
    (Forall (fun e => occurrences LF (path e) = 0) (before ++ root ++ after) ->
     text_lines
       (printed (List.map (fun f => "File: " ++ path f) before ++
                 List.map (fun r => "Directory: " ++ path r) root ++
                 List.map (fun f => "File: " ++ path f) after))%string =
     List.map (fun f => "File: " ++ path f)%string before ++
     List.map (fun r => "Directory: " ++ path r)%string root ++
     List.map (fun f => "File: " ++ path f)%string after).
Proof.
  intros Hd Hb Ha Hr _. exists (final_world w (before ++ root ++ after) c).
  split; [now apply (main_run fuel)|].
  assert (Hlog : logged (before ++ root ++ after) =
                 List.map (fun f => "File: " ++ path f)%string before ++
                 List.map (fun r => "Directory: " ++ path r)%string root ++
                 List.map (fun f => "File: " ++ path f)%string after).
  { rewrite !logged_app.
    now rewrite (logged_files before Hb), (logged_files after Ha),
      (logged_directories root Hr). }
  unfold final_world. cbn [stdout]. rewrite Hlog.
  split; [reflexivity|].
  intros Hfree. rewrite <- Hlog, logged_recognized.
  now apply text_lines_printed, lines_LF_free.
Qed.

Lemma only_files_output_witness :
  exists w',
    run Sample.flat_world ≈ Ret (w', Js.Normal) /\
    stdout w' =
      printed ["Directory: /flat/Desktop";
               "File: /flat/Desktop/1"; "File: /flat/Desktop/2"]%string /\
    text_lines (printed ["Directory: /flat/Desktop";
                         "File: /flat/Desktop/1"; "File: /flat/Desktop/2"]%string) =
      ["Directory: /flat/Desktop";
       "File: /flat/Desktop/1"; "File: /flat/Desktop/2"]%string.
Proof.
  destruct (only_files_output 4 Sample.flat_world
              [] [Sample.flat] [Sample.flat_1; Sample.flat_2] Js.Normal
              eq_refl (Forall_nil _)
              ltac:(repeat constructor) ltac:(repeat constructor) (le_n 1))
    as (w' & Hrun & Hout & Hlines).
  exists w'. split; [exact Hrun|split; [exact Hout|]].
  apply Hlines. repeat constructor.
Defined.

(** C9, as the spec has it, fails on a file whose name holds a line
    feed: the walk is the root and one regular file, and the output has
    a [Directory:] line that is not the root's. *)
Lemma line_feed_path_prints_directory_line :
  walk_of Corner.lf_world 3 =
    Some ([] ++ [Corner.lf_root] ++ [Corner.lf_file], Js.Normal) /\
  isFile Corner.lf_file = true /\
  (isFile Corner.lf_root = false /\ isDirectory Corner.lf_root = true) /\
  exists w',
    run Corner.lf_world ≈ Ret (w', Js.Normal) /\
    In "Directory: etc"%string (text_lines (stdout w')) /\
    "Directory: etc"%string <> ("Directory: " ++ path Corner.lf_root)%string.
Proof.
  split; [reflexivity|split; [reflexivity|split; [split; reflexivity|]]].
  exists (final_world Corner.lf_world [Corner.lf_root; Corner.lf_file] Js.Normal).
  split; [apply (main_run 3); reflexivity|split].
  - vm_compute. right. right. left. reflexivity.
  - discriminate.
Qed.

(* ===================================================================== *)
(** * Walks that have not ended *)

Lemma set_nth_same {A} (n : nat) (x : A) (l : list A) :
  nth_error l n = Some x -> set_nth n x l = l.
Proof.
  revert n; induction l as [|z l IH]; intros [|n]; cbn; try discriminate.
  - now intros [= ->].
  - intros H. now rewrite IH.
Qed.

Lemma loop_state_nil (w : World) (it : IterHandle) root options k :
  nth_error (iters w) it = Some (mkIter root options k) ->
  loop_state w it root options k [] = w.
Proof.
  intros Hit. unfold loop_state. cbn [length logged flat_map printed].
  now rewrite Nat.add_0_r, (set_nth_same _ _ _ Hit), append_nil_r, app_nil_r,
    world_eta.
Qed.









(** The sightings of a run. *)
Lemma shown_app (a b : list (visibleE unit)) :
  shown (a ++ b) ≈ (shown a ;; shown b).
Proof.
  induction a as [|ev a IH]; cbn [shown app].
  - now rewrite bind_ret_l.
  - rewrite bind_bind. apply eutt_eq_bind. intros []. exact IH.
Qed.

Lemma visible_log_run (msg : string) (w : World) :
  interp_state handle_visible (ITree.trigger (ConsoleLog msg)) w ≈
  (ITree.trigger (Written (msg ++ newline)) ;; Ret (emitted msg w, tt)).
Proof.
  rewrite interp_state_trigger. unfold handle_visible, visible, handle_reporter.
  apply eutt_eq_bind. intros []. now rewrite translate_ret.
Qed.

Lemma visible_report_run (e : WalkEntry) (w : World) :
  interp_state handle_visible (report e) w ≈
  (shown (List.map (fun l => Written (l ++ newline)) (entry_lines e)) ;;
   Ret (mkWorld (env w) (env_error w) (walker w) (iters w)
                (stdout w ++ printed (entry_lines e))
                (trace w ++ List.map EvLog (entry_lines e)), tt)).
Proof.
  unfold report, entry_lines.
  destruct (isFile e); [|destruct (isDirectory e)]; cbn [List.map shown].
  - rewrite visible_log_run, printed_one, bind_bind.
    apply eutt_eq_bind. intros []. now rewrite bind_ret_l.
  - rewrite visible_log_run, printed_one, bind_bind.
    apply eutt_eq_bind. intros []. now rewrite bind_ret_l.
  - rewrite interp_state_ret, bind_ret_l. cbn [printed].
    now rewrite append_nil_r, app_nil_r, world_eta.
Qed.

(** The loop as it is seen: after [n] entries, whatever the walker
    answers next. *)
Lemma visible_prefix (n : nat) :
  forall (w : World) (it : IterHandle) root options k es,
    nth_error (iters w) it = Some (mkIter root options k) ->
    first_yields (walker w root options) n k = Some es ->
    interp_state handle_visible (for_await it report) w ≈
    (shown (sightings it es) ;;
     interp_state handle_visible (for_await it report)
                  (loop_state w it root options k es)).
Proof.
  induction n as [|n IH]; intros w it root options k es Hit Hy.
  - injection Hy as <-. cbn [sightings flat_map shown].
    now rewrite bind_ret_l, loop_state_nil.
  - cbn [first_yields] in Hy.
    destruct (walker w root options k) as [e| |err] eqn:Hw; try discriminate.
    destruct (first_yields (walker w root options) n (S k)) as [es'|] eqn:Hy';
      [|discriminate].
    injection Hy as <-.
    unfold for_await at 1. rewrite unfold_iter, bind_bind.
    rewrite interp_state_bind, interp_state_trigger.
    unfold handle_visible at 1, visible, handle_reporter.
    rewrite Hit. cbv zeta. rewrite Hw, !bind_bind.
    cbn [sightings flat_map app shown]. rewrite bind_bind.
    apply eutt_eq_bind. intros []. rewrite translate_ret, bind_ret_l. cbn [fst snd].
    rewrite bind_bind, interp_state_bind, visible_report_run, !bind_bind.
    fold (sightings it es'). rewrite shown_app, bind_bind.
    apply eutt_eq_bind. intros []. rewrite !bind_ret_l. cbn [fst snd].
    rewrite interp_state_tau, tau_eutt.
    fold (for_await it report).
    rewrite (IH _ it root options (S k) es');
      cbn [env env_error walker iters stdout trace record with_iters].
    + unfold loop_state. cbn [env env_error walker iters stdout trace length flat_map].
      unfold logged. cbn [flat_map].
      rewrite set_nth_twice, printed_app, append_assoc, Nat.add_succ_r.
      rewrite <- !app_assoc. reflexivity.
    + now apply nth_error_set_nth with (x := mkIter root options k).
    + exact Hy'.
Qed.

Lemma visible_main_prefix (w : World) :
  env_error w "HOME"%string = None ->
  run_visible w ≈
  interp_state handle_visible (for_await (length (iters w)) report)
               (walked (root_path w) w).
Proof.
  intros Hok. unfold run_visible, main.
  rewrite interp_state_bind, interp_state_trigger.
  unfold handle_visible at 1, visible, handle_reporter.
  rewrite Hok. cbv zeta. rewrite bind_ret_l, translate_ret, bind_ret_l.
  cbn [fst snd].
  rewrite interp_state_bind, interp_state_trigger.
  unfold handle_visible at 1, visible, handle_reporter.
  cbv zeta. rewrite bind_ret_l, translate_ret, bind_ret_l. cbn [fst snd].
  unfold record, with_iters, walked, root_path.
  cbn [env env_error walker iters stdout trace].
  now rewrite <- app_assoc.
Qed.

(** X1: output is streamed.  Seen from outside, a run that can read
    [HOME] and whose walker yields [es] first is, in this order: for
    each entry of [es] the request that fetched it and then the write of
    its line to standard output; after that the loop goes on from the
    world these entries leave, whatever the walker answers from then on
    and whether or not the walk ever ends. *)
Theorem output_streams (n : nat) (w : World) (es : list WalkEntry) :
  env_error w "HOME"%string = None ->
  first_yields (walker w (root_path w) None) n 0 = Some es ->
  run_visible w ≈
  (shown (sightings (length (iters w)) es) ;;
   interp_state handle_visible (for_await (length (iters w)) report)
                (progress w es)).
Proof.
  intros Hok Hy. rewrite visible_main_prefix by exact Hok.
  rewrite (visible_prefix n _ _ (root_path w) None 0 es);
    [|apply nth_error_last|exact Hy].
  unfold loop_state, walked, progress.
  cbn [env env_error walker iters stdout trace Nat.add].
  now rewrite set_nth_last, <- app_assoc.
Qed.

Lemma output_streams_witness :
  run_visible Corner.endless_world ≈
  (shown [Requested 0;
          Written ("Directory: /loop/Desktop/again" ++ newline);
          Requested 0;
          Written ("Directory: /loop/Desktop/again" ++ newline)] ;;
   interp_state handle_visible (for_await 0 report)
                (progress Corner.endless_world [Corner.again; Corner.again])).
Proof.
  exact (output_streams 2 Corner.endless_world [Corner.again; Corner.again]
                        eq_refl eq_refl).
Defined.







(* ===================================================================== *)
(** * Reading the output back *)

Lemma append_inv_head (a x y : string) : (a ++ x = a ++ y)%string -> x = y.
Proof.
  induction a as [|ch a IH]; cbn; [auto|]. intros [= H]. now apply IH.
Qed.

Lemma occurrences_head (c x : ascii) (s : string) :
  occurrences c (String x s) = 0 -> x <> c.
Proof.
  cbn [occurrences]. destruct (Ascii.eqb_spec x c) as [->|Hne]; [discriminate|auto].
Qed.

(** Two texts without a line feed, each followed by one, part at it. *)
Lemma split_at_LF (a b s t : string) :
  occurrences LF a = 0 -> occurrences LF b = 0 ->
  (a ++ newline ++ s = b ++ newline ++ t)%string -> a = b /\ s = t.
Proof.
  revert b; induction a as [|x a IH]; intros [|y b] Ha Hb H; cbn in H.
  - injection H as ->. auto.
  - injection H as <- _. now apply occurrences_head in Hb.
  - injection H as -> _. now apply occurrences_head in Ha.
  - injection H as -> H.
    cbn [occurrences] in Ha, Hb.
    destruct (IH b) as [-> ->]; auto; lia.
Qed.

Lemma printed_inj (l1 l2 : list string) :
  Forall (fun l => occurrences LF l = 0) l1 ->
  Forall (fun l => occurrences LF l = 0) l2 ->
  printed l1 = printed l2 -> l1 = l2.
Proof.
  intros H1; revert l2; induction H1 as [|a l1 Ha _ IH]; intros l2 H2 H.
  - destruct l2 as [|b l2]; [reflexivity|].
    cbn [printed] in H. destruct b; discriminate H.
  - destruct H2 as [|b l2 Hb H2].
    + cbn [printed] in H. destruct a; discriminate H.
    + cbn [printed] in H. apply split_at_LF in H; auto.
      destruct H as [-> H]. f_equal. now apply IH.
Qed.

Lemma line_of_inj (e1 e2 : WalkEntry) :
  line_of e1 = line_of e2 -> kind_and_path e1 = kind_and_path e2.
Proof.
  unfold line_of, kind_and_path.
  destruct (isFile e1), (isFile e2); cbn; intros H;
    try discriminate H; injection H as ->; reflexivity.
Qed.

Lemma lines_inj (l1 l2 : list WalkEntry) :
  List.map line_of l1 = List.map line_of l2 ->
  List.map kind_and_path l1 = List.map kind_and_path l2.
Proof.
  revert l2; induction l1 as [|e1 l1 IH]; intros [|e2 l2] H;
    try discriminate H; [reflexivity|].
  cbn [List.map] in *. injection H as He H.
  now rewrite (line_of_inj _ _ He), (IH _ H).
Qed.

Lemma logged_unlabelled (es : list WalkEntry) :
  Forall (fun e => isFile e = false /\ isDirectory e = false) es ->
  logged es = [].
Proof.
  unfold logged. induction 1 as [|e es [Hf Hdir] _ IH]; [reflexivity|].
  cbn [flat_map]. rewrite IH. unfold entry_lines. now rewrite Hf, Hdir.
Qed.

Lemma env_reads_app (a b : list Event) :
  env_reads (a ++ b) = env_reads a ++ env_reads b.
Proof. apply flat_map_app. Qed.

Lemma env_reads_loop it es c : env_reads (loop_events it es c) = [].
Proof.
  unfold loop_events. rewrite env_reads_app. cbn [env_reads flat_map app].
  rewrite app_nil_r. induction es as [|e es IH]; [reflexivity|].
  cbn [flat_map]. rewrite env_reads_app, IH, app_nil_r.
  cbn [env_reads flat_map app].
  unfold env_reads. induction (entry_lines e) as [|l ls IHl]; cbn; auto.
Qed.

(** The hypothesis on paths is needed: a path with a line feed in it
    prints as the lines of two files. *)
Example line_feed_in_path_is_ambiguous :
  printed (List.map line_of [Corner.two_in_one]) =
  printed (List.map line_of [Corner.d_a; Corner.d_b]).
Proof. reflexivity. Qed.

(** X5: when no yielded path holds a line feed, a run adds to standard
    output as many line feeds as the walk has file and directory
    entries: one text line per such entry. *)
Theorem lines_match_entries (fuel : nat) (w : World)
    (es : list WalkEntry) (c : Js.Completion) :
  walk_of w fuel = Some (es, c) ->
  Forall (fun e => occurrences LF (path e) = 0) es ->
  exists w',
    run w ≈ Ret (w', c) /\
    occurrences LF (stdout w') =
      occurrences LF (stdout w) + length (filter recognized es).
Proof.
  intros Hd Hes. exists (final_world w es c).
  split; [now apply (main_run fuel)|].
  unfold final_world. cbn [stdout].
  now rewrite occurrences_app, logged_recognized, printed_lines_count.
Qed.

Lemma lines_match_entries_witness :
  exists w',
    run Sample.home_world ≈ Ret (w', Js.Normal) /\
    occurrences LF (stdout w') = 0 + 4.
Proof.
  apply (lines_match_entries 6 Sample.home_world
           [Sample.desktop; Sample.a_txt; Sample.b_dir; Sample.c_txt; Sample.link]
           Js.Normal).
  - reflexivity.
  - repeat constructor.
Defined.

(** X6: when no yielded path holds a line feed, the output tells the
    walk: two runs that start from the same standard output and end
    with the same standard output saw the same labels and paths, in the
    same order, on their file and directory entries. *)
Theorem output_determines_entries (fuel1 fuel2 : nat) (w1 w2 : World)
    (es1 es2 : list WalkEntry) (c1 c2 : Js.Completion) :
  walk_of w1 fuel1 = Some (es1, c1) ->
  walk_of w2 fuel2 = Some (es2, c2) ->
  Forall (fun e => occurrences LF (path e) = 0) es1 ->
  Forall (fun e => occurrences LF (path e) = 0) es2 ->
  stdout w1 = stdout w2 ->
  forall w1' w2',
    run w1 ≈ Ret (w1', c1) -> run w2 ≈ Ret (w2', c2) ->
    stdout w1' = stdout w2' ->
    List.map kind_and_path (filter recognized es1) =
    List.map kind_and_path (filter recognized es2).
Proof.
  intros H1 H2 F1 F2 Hout w1' w2' R1 R2 Hsame.
  pose proof (ret_unique _ _ _ R1 (main_run fuel1 w1 es1 c1 H1)) as E1.
  pose proof (ret_unique _ _ _ R2 (main_run fuel2 w2 es2 c2 H2)) as E2.
  injection E1 as ->. injection E2 as ->.
  unfold final_world in Hsame. cbn [stdout] in Hsame.
  rewrite Hout, !logged_recognized in Hsame.
  apply append_inv_head in Hsame.
  apply lines_inj, printed_inj; auto using lines_LF_free.
Qed.

Lemma output_determines_entries_witness :
  List.map kind_and_path
    (filter recognized
       [Sample.desktop; Sample.a_txt; Sample.b_dir; Sample.c_txt; Sample.link]) =
  List.map kind_and_path
    (filter recognized
       [Sample.desktop; Corner.a_twin; Sample.b_dir; Sample.c_txt]).
Proof.
  apply (output_determines_entries 6 5 Sample.home_world Corner.twin_world
           _ _ Js.Normal Js.Normal eq_refl eq_refl
           ltac:(repeat constructor) ltac:(repeat constructor) eq_refl
           (final_world Sample.home_world
              [Sample.desktop; Sample.a_txt; Sample.b_dir; Sample.c_txt;
               Sample.link] Js.Normal)
           (final_world Corner.twin_world
              [Sample.desktop; Corner.a_twin; Sample.b_dir; Sample.c_txt]
              Js.Normal)).
  - apply (burn_sound 40). vm_compute. reflexivity.
  - apply (burn_sound 40). vm_compute. reflexivity.
  - reflexivity.
Defined.

(** X7: a walk without file or directory entries (links, sockets, or no
    entry at all) writes nothing and logs nothing, yet every entry is
    asked for and the walk is followed to its end. *)
Theorem unlabelled_entries_are_silent (fuel : nat) (w : World)
    (es : list WalkEntry) (c : Js.Completion) :
  walk_of w fuel = Some (es, c) ->
  Forall (fun e => isFile e = false /\ isDirectory e = false) es ->
  exists w',
    run w ≈ Ret (w', c) /\
    stdout w' = stdout w /\
    log_calls (trace w') = log_calls (trace w) /\
    next_results (trace w') =
      next_results (trace w) ++ List.map IterYield es ++ [last_result c].
Proof.
  intros Hd Hes. exists (final_world w es c).
  split; [now apply (main_run fuel)|].
  pose proof (logged_unlabelled es Hes) as Hnone.
  unfold final_world, main_events. cbn [stdout trace].
  rewrite Hnone. cbn [printed]. rewrite append_nil_r.
  split; [reflexivity|split].
  - rewrite log_calls_app.
    change (log_calls (?a :: ?b :: ?l)) with (log_calls l).
    now rewrite log_calls_loop, Hnone, app_nil_r.
  - rewrite next_results_app. f_equal.
    change (next_results (?a :: EvWalk ?r ?o ?it :: ?l)) with (next_results l).
    now rewrite next_results_loop.
Qed.

Lemma unlabelled_entries_are_silent_witness :
  exists w',
    run Corner.specials_world ≈ Ret (w', Js.Normal) /\
    stdout w' = "kept"%string /\
    log_calls (trace w') = [] /\
    next_results (trace w') =
      [IterYield Corner.sock; IterYield Corner.lnk; IterDone].
Proof.
  apply (unlabelled_entries_are_silent 3 Corner.specials_world
           [Corner.sock; Corner.lnk] Js.Normal).
  - reflexivity.
  - repeat constructor.
Defined.

(** X8: a run reads the environment once, for [HOME]; under any other
    environment with the same [HOME] the run ends the same way, with
    the same output, calls and iterators. *)
Theorem only_home_is_read (fuel : nat) (w : World)
    (other : string -> option string) (es : list WalkEntry) (c : Js.Completion) :
  walk_of w fuel = Some (es, c) ->
  other "HOME"%string = env w "HOME"%string ->
  exists w',
    run w ≈ Ret (w', c) /\
    run (with_env other w) ≈ Ret (with_env other w', c) /\
    env_reads (trace w') = env_reads (trace w) ++ ["HOME"%string].
Proof.
  intros Hd Hhome. exists (final_world w es c).
  split; [now apply (main_run fuel)|split].
  - assert (Hroot : root_path (with_env other w) = root_path w)
      by (unfold root_path, env_get, with_env; cbn [env]; now rewrite Hhome).
    assert (Hget : env_get (with_env other w) "HOME" = env_get w "HOME")
      by (unfold env_get, with_env; cbn [env]; now rewrite Hhome).
    rewrite (main_run fuel (with_env other w) es c).
    + apply eqit_Ret. unfold final_world, main_events.
      rewrite Hroot, Hget. reflexivity.
    + unfold walk_of. rewrite Hroot. exact Hd.
  - unfold final_world, main_events. cbn [trace].
    rewrite env_reads_app. f_equal.
    change (env_reads (EvEnvGet ?k ?v :: ?b :: ?l)) with (k :: env_reads l).
    now rewrite env_reads_loop.
Qed.

Lemma only_home_is_read_witness :
  exists w',
    run Sample.home_world ≈ Ret (w', Js.Normal) /\
    run (with_env Corner.busy_env Sample.home_world) ≈
      Ret (with_env Corner.busy_env w', Js.Normal) /\
    env_reads (trace w') = ["HOME"%string].
Proof.
  apply (only_home_is_read 6 Sample.home_world Corner.busy_env
           [Sample.desktop; Sample.a_txt; Sample.b_dir; Sample.c_txt; Sample.link]
           Js.Normal); reflexivity.
Defined.
